(** * dsp/stats.h: mean, variance and standard deviation of a range

    A shallow embedding of the function templates of [src/stats.h]
    ([dsp::mean], [dsp::var], [dsp::std] and [enum class weight]), generic in
    the sample type [T] as the templates are, and run at [T = double], IEEE
    binary64.  The values of the binary64 runs are compared with the formulas
    of the specification through the rational number each finite double
    denotes.
*)

From Stdlib Require Import Floats ZArith List Bool QArith Qfield Lia.
Import ListNotations.

Set Implicit Arguments.

(** ** The sample type

    What the templates ask of [T]: the conversion [T(0)] and the implicit
    conversion of the [std::ptrdiff_t] returned by [std::distance] ([cast]),
    [+] as [std::plus<T>] ([plus]), [-] ([minus]), [/] ([divides]),
    [std::pow(x, n)] with an integer exponent ([powi]) and [std::sqrt]
    ([root]). *)
Class Sample (T : Type) : Type := {
  cast : Z -> T;
  plus : T -> T -> T;
  minus : T -> T -> T;
  divides : T -> T -> T;
  powi : T -> nat -> T;
  root : T -> T
}.

(** [enum class weight{sample, population}] *)
Inductive weight : Type := sample | population.

Definition weight_eqb (a b : weight) : bool :=
  match a, b with
  | sample, sample | population, population => true
  | _, _ => false
  end.

(** A call that leaves the trailing argument out receives the default of
    the declarations, [weight w = weight::sample]. *)
Definition default_weight : weight := sample.

Definition opt_weight (w : option weight) : weight :=
  match w with
  | Some w' => w'
  | None => default_weight
  end.

(** ** Iterators

    An iterator is a position in a sequence, of a category: random access
    ([std::vector]) or not ([std::list]).  [x.begin()] is position 0 of [x]
    and [x.end()] is one past its last element. *)
Record iterator (T : Type) : Type :=
  Iter { seq_of : list T; pos : nat; random_access : bool }.

(** [std::vector<T>] *)
Definition vector (T : Type) : Type := list T.

(** Modelled from the spec: [Signal.h] is not part of the sources; the
    specification describes [dsp::Signal<T>] as a buffer that gives
    read-only forward iteration over its samples through [begin()] and
    [end()].  The category of these iterators is not stated, and is a field
    of the buffer. *)
Record Signal (T : Type) : Type :=
  MkSignal { samples : list T; signal_random_access : bool }.

Section Ranges.
Context {T : Type}.

Definition vbegin (x : vector T) : iterator T := Iter x 0 true.
Definition vend (x : vector T) : iterator T := Iter x (length x) true.
Definition sbegin (x : Signal T) : iterator T :=
  Iter (samples x) 0 (signal_random_access x).
Definition send (x : Signal T) : iterator T :=
  Iter (samples x) (length (samples x)) (signal_random_access x).

(** [std::distance(first, last)], a [std::ptrdiff_t]. *)
Definition distance (first last : iterator T) : Z :=
  Z.of_nat (pos last) - Z.of_nat (pos first).

(** The elements visited by [for (; first != last; ++first)].  The loop is
    defined for a valid range only ([last] reachable from [first]); on any
    other pair this is the part of the sequence that exists. *)
Definition range (first last : iterator T) : list T :=
  firstn (pos last - pos first) (skipn (pos first) (seq_of first)).

Definition valid_range (first last : iterator T) : Prop :=
  seq_of first = seq_of last /\
  random_access first = random_access last /\
  (pos first <= pos last)%nat /\ (pos last <= length (seq_of last))%nat.

(** [std::accumulate(first, last, init)]: [init = init + *first] left to
    right, whatever the category. *)
Definition accumulate `{Sample T} (first last : iterator T) (init : T) : T :=
  fold_left plus (range first last) init.
End Ranges.

(** The two loops of libstdc++'s [std::transform_reduce(first, last, init,
    reduce, transform)] ([<numeric>]), on the elements of the range.

    The loop every category ends with:
    [for (; first != last; ++first) init = reduce(init, transform( *first))]. *)
Definition sequential_reduce {A B : Type} (reduce : A -> A -> A)
    (transform : B -> A) (l : list B) (init : A) : A :=
  fold_left (fun acc x => reduce acc (transform x)) l init.

(** The loop random-access iterators start with: while four elements or more
    are left, [v1 = reduce(t(first[0]), t(first[1]))],
    [v2 = reduce(t(first[2]), t(first[3]))], [v3 = reduce(v1, v2)],
    [init = reduce(init, v3)], [first += 4]. *)
Fixpoint grouped_reduce {A B : Type} (reduce : A -> A -> A)
    (transform : B -> A) (l : list B) (init : A) : A :=
  match l with
  | a :: b :: c :: d :: l' =>
      grouped_reduce reduce transform l'
        (reduce init (reduce (reduce (transform a) (transform b))
                             (reduce (transform c) (transform d))))
  | _ => sequential_reduce reduce transform l init
  end.

Definition transform_reduce {T : Type} (first last : iterator T) (init : T)
    (reduce : T -> T -> T) (transform : T -> T) : T :=
  if random_access first
  then grouped_reduce reduce transform (range first last) init
  else sequential_reduce reduce transform (range first last) init.

(** ** Calls of the [var] templates

    A call names its function template with the sample type, [var<T>(...)],
    or without, [var(...)]. *)
Inductive template_arguments : Type := named_T | none_named.

(** What overload resolution sees of a declaration: how many parameters it
    has, how many of them are defaulted, and whether [T] occurs in a
    parameter type, from which it can be deduced. *)
Record declaration : Type :=
  Decl { parameters : nat; defaulted : nat; T_in_parameters : bool }.

(** [template<class T, class InputIt> T var(InputIt, InputIt, weight = ...)] *)
Definition var_of_range : declaration := Decl 3 1 false.
(** [template<class T> T var(const std::vector<T>&, weight = ...)] *)
Definition var_of_vector : declaration := Decl 2 1 true.
(** [template<class T> T var(const dsp::Signal<T>&, weight = ...)] *)
Definition var_of_signal : declaration := Decl 2 1 true.

Definition var_declarations : list declaration :=
  [var_of_range; var_of_vector; var_of_signal].

(** A declaration is a candidate for a call when the number of arguments
    fits and [T] is named or can be deduced.  (The types of the arguments
    can only rule out more.) *)
Definition viable (targs : template_arguments) (arguments : nat)
    (d : declaration) : bool :=
  (parameters d - defaulted d <=? arguments)%nat &&
  (arguments <=? parameters d)%nat &&
  match targs with
  | named_T => true
  | none_named => T_in_parameters d
  end.

Definition var_call_viable (targs : template_arguments) (arguments : nat) : bool :=
  existsb (viable targs arguments) var_declarations.

(** ** The functions of [namespace dsp] *)
Section Stats.
Context {T : Type} `{Sample T}.

(** [T mean(InputIt begin, InputIt end)] *)
Definition mean (first last : iterator T) : T :=
  let sum := accumulate first last (cast 0) in
  divides sum (cast (distance first last)).

(** [T mean(const std::vector<T>& x)] *)
Definition mean_vector (x : vector T) : T := mean (vbegin x) (vend x).

(** [T mean(const Signal<T>& x)] *)
Definition mean_signal (x : Signal T) : T := mean (sbegin x) (send x).

(** [T var(InputIt begin, InputIt end, weight w)] *)
Definition var (first last : iterator T) (w : weight) : T :=
  let mu := mean first last in
  let sum := transform_reduce first last (cast 0) plus
               (fun x => powi (minus x mu) 2) in
  if weight_eqb w sample
  then divides sum (cast (distance first last - 1))
  else divides sum (cast (distance first last)).

(** [T var(const std::vector<T>& x, weight w)]: [var<T>(x.begin(), x.end(),
    w)], a call that names [T]. *)
Definition var_vector (x : vector T) (w : weight) : T :=
  var (vbegin x) (vend x) w.

(** [T var(const dsp::Signal<T>& x, weight w)] *)
Definition var_signal (x : Signal T) (w : weight) : T :=
  var (sbegin x) (send x) w.

(** [T std(IterIt begin, IterIt end, weight w)], whose body is
    [return std::sqrt(var(begin, end, w));]: a call of [var] with three
    arguments that names no [T].  Where no declaration of [var] is viable
    for it the template has no instance, and [std] is no program: [None]. *)
Definition std (first last : iterator T) (w : weight) : option T :=
  if var_call_viable none_named 3
  then Some (root (var first last w))
  else None.

(** [T std(const std::vector<T>& x, weight w)]:
    [std<T>(x.begin(), x.end(), w)], an instance of the template above. *)
Definition std_vector (x : vector T) (w : weight) : option T :=
  std (vbegin x) (vend x) w.

(** [T std(const dsp::Signal<T>& x, weight w)] *)
Definition std_signal (x : Signal T) (w : weight) : option T :=
  std (sbegin x) (send x) w.
End Stats.

(** ** [T = double]: IEEE binary64 *)
Module Binary64.

(** Conversion of a [std::ptrdiff_t] to [double]. *)
Definition float_of_Z (z : Z) : float :=
  if (z <? 0)%Z
  then PrimFloat.opp (PrimFloat.of_uint63 (Uint63.of_Z (- z)))
  else PrimFloat.of_uint63 (Uint63.of_Z z).

(** [std::pow(x, n)] for a small non-negative integer [n], as repeated
    multiplication; [std::pow(x, 2)] is the rounded [x * x]. *)
Fixpoint float_powi (x : float) (n : nat) : float :=
  match n with
  | O => 1%float
  | S k => PrimFloat.mul x (float_powi x k)
  end.

#[global] Instance float_Sample : Sample float := {
  cast := float_of_Z;
  plus := PrimFloat.add;
  minus := PrimFloat.sub;
  divides := PrimFloat.div;
  powi := float_powi;
  root := PrimFloat.sqrt
}.

Definition is_finite (x : float) : bool :=
  negb (PrimFloat.is_nan x || PrimFloat.is_infinity x).

(** [DBL_MAX] *)
Definition DBL_MAX : float := 0x1.fffffffffffffp+1023%float.

(** *** The number a double denotes *)

(** The rational [(-1)^s * m * 2^e] of a finite double; 0 for the others. *)
Definition SF2Q (x : spec_float) : Q :=
  match x with
  | S754_finite s m e => inject_Z (if s then Zneg m else Zpos m) * (2 # 1) ^ e
  | _ => 0
  end.

Definition toQ (x : float) : Q := SF2Q (Prim2SF x).

(** The double [f] is finite and denotes [q]. *)
Definition exactly (f : float) (q : Q) : bool :=
  is_finite f && Qeq_bool (toQ f) q.

(** *** A run that keeps the exact value beside the double

    [fval] is the double the program holds, [qval] the rational the same
    operations give without rounding, and [ok] tells that so far every
    operation returned a finite double that denotes its exact result. *)
Record traced : Type := Traced { fval : float; qval : Q; ok : bool }.

Definition trace (x : float) : traced := Traced x (toQ x) (is_finite x).

Definition tcast (z : Z) : traced :=
  Traced (float_of_Z z) (inject_Z z) (exactly (float_of_Z z) (inject_Z z)).

Definition tadd (a b : traced) : traced :=
  let f := PrimFloat.add (fval a) (fval b) in
  let q := qval a + qval b in
  Traced f q (ok a && ok b && exactly f q).

Definition tsub (a b : traced) : traced :=
  let f := PrimFloat.sub (fval a) (fval b) in
  let q := qval a - qval b in
  Traced f q (ok a && ok b && exactly f q).

Definition tmul (a b : traced) : traced :=
  let f := PrimFloat.mul (fval a) (fval b) in
  let q := qval a * qval b in
  Traced f q (ok a && ok b && exactly f q).

Definition tdiv (a b : traced) : traced :=
  let f := PrimFloat.div (fval a) (fval b) in
  let q := qval a / qval b in
  Traced f q (ok a && ok b && negb (Qeq_bool (qval b) 0) && exactly f q).

Fixpoint tpowi (a : traced) (n : nat) : traced :=
  match n with
  | O => Traced 1%float 1 true
  | S k => tmul a (tpowi a k)
  end.

(** A square root is no rational operation: its run is never [ok]. *)
Definition troot (a : traced) : traced :=
  Traced (PrimFloat.sqrt (fval a)) 0 false.

#[global] Instance traced_Sample : Sample traced := {
  cast := tcast;
  plus := tadd;
  minus := tsub;
  divides := tdiv;
  powi := tpowi;
  root := troot
}.

Definition trace_iterator (it : iterator float) : iterator traced :=
  Iter (map trace (seq_of it)) (pos it) (random_access it).

(** *** Signs

    [x] is a NaN or carries the sign [s]. *)
Definition sign_is (s : bool) (x : spec_float) : bool :=
  match x with
  | S754_nan => true
  | S754_zero s' | S754_infinity s' | S754_finite s' _ _ => Bool.eqb s s'
  end.

(** [x] is a NaN, a zero of either sign, or above zero: it is not below
    zero. *)
Definition not_below_zero (x : spec_float) : bool :=
  match x with
  | S754_nan | S754_zero _ => true
  | S754_infinity s | S754_finite s _ _ => negb s
  end.

(** [x] is no NaN. *)
Definition is_number (x : spec_float) : bool :=
  match x with
  | S754_nan => false
  | _ => true
  end.

Definition finite_or_zero (x : spec_float) : bool :=
  match x with
  | S754_zero _ | S754_finite _ _ _ => true
  | _ => false
  end.

(** The infinity of sign [s]. *)
Definition inf (s : bool) : float := if s then neg_infinity else infinity.

(** *** Sample data: the samples 1, 2, 3, 4, 5, alone and as the range
    [[1, 6)] of a longer buffer, of either category *)
Definition one_to_five : list float := [1; 2; 3; 4; 5]%float.

Definition buffer : list float := (0 :: one_to_five ++ [9])%float.

Definition buffer_first : iterator float := Iter buffer 1 true.
Definition buffer_last : iterator float := Iter buffer 6 true.

Definition list_first : iterator float := Iter buffer 1 false.
Definition list_last : iterator float := Iter buffer 6 false.

(** Two finite samples whose sum is beyond [DBL_MAX]. *)
Definition two_large : list float := [DBL_MAX; DBL_MAX].

(** Three samples whose sum, left to right, loses the 1. *)
Definition cancelling : list float := [1e16; 1; -1e16]%float.



End Binary64.

(** ** The formulas of the specification, over the rationals *)
Module Formula.
Local Open Scope Q_scope.

(** The sum of all elements. *)
Definition Qsum (S : list Q) : Q := fold_right Qplus 0 S.

(** The count of elements. *)
Definition count (S : list Q) : Q := inject_Z (Z.of_nat (length S)).

(** "(sum of all elements) / (count of elements)" *)
Definition mean_spec (S : list Q) : Q := Qsum S / count S.

(** The sum of squared deviations from the mean. *)
Definition sq_dev_spec (S : list Q) : Q :=
  Qsum (map (fun x => (x - mean_spec S) * (x - mean_spec S)) S).

(** "divide by (N-1) if weighting = sample, or by N if weighting =
    population" *)
Definition divisor_spec (n : nat) (w : weight) : Z :=
  match w with
  | sample => Z.of_nat n - 1
  | population => Z.of_nat n
  end.

Definition variance_spec (S : list Q) (w : weight) : Q :=
  sq_dev_spec S / inject_Z (divisor_spec (length S) w).

(** The size precondition of the variance. *)
Definition well_sized (n : nat) (w : weight) : Prop :=
  match w with
  | sample => (2 <= n)%nat
  | population => (1 <= n)%nat
  end.

End Formula.

(** * Properties *)

Unset Implicit Arguments.

(** ** Ranges *)
Section RangeFacts.
Context {T : Type}.

Lemma range_whole (x : vector T) : range (vbegin x) (vend x) = x.
Proof.
  unfold range, vbegin, vend; simpl.
  rewrite Nat.sub_0_r. apply firstn_all.
Qed.

Lemma range_signal (x : Signal T) : range (sbegin x) (send x) = samples x.
Proof.
  unfold range, sbegin, send; simpl.
  rewrite Nat.sub_0_r. apply firstn_all.
Qed.

Lemma valid_whole (x : vector T) : valid_range (vbegin x) (vend x).
Proof. unfold valid_range; simpl. repeat split; lia. Qed.

Lemma valid_signal (x : Signal T) : valid_range (sbegin x) (send x).
Proof. unfold valid_range; simpl. repeat split; lia. Qed.

Lemma range_length (first last : iterator T) :
  valid_range first last ->
  length (range first last) = (pos last - pos first)%nat.
Proof.
  intros (Hs & _ & Hle & Hlen). unfold range.
  rewrite length_firstn, length_skipn, Hs. lia.
Qed.

Lemma distance_length (first last : iterator T) :
  valid_range first last ->
  distance first last = Z.of_nat (length (range first last)).
Proof.
  intros Hv. rewrite (range_length _ _ Hv).
  destruct Hv as (_ & _ & Hle & _). unfold distance. lia.
Qed.

Lemma range_empty (first last : iterator T) :
  pos first = pos last -> range first last = [] /\ distance first last = 0%Z.
Proof.
  intros E. unfold range, distance. rewrite E, Nat.sub_diag.
  split; [reflexivity | lia].
Qed.

End RangeFacts.

(** ** The two loops of [transform_reduce] *)
Section Reductions.
Context {A B : Type}.

(** Induction four elements at a time, as [grouped_reduce] recurses. *)
Lemma list_ind4 (P : list B -> Prop) :
  P [] -> (forall a, P [a]) -> (forall a b, P [a; b]) ->
  (forall a b c, P [a; b; c]) ->
  (forall a b c d l, P l -> P (a :: b :: c :: d :: l)) ->
  forall l, P l.
Proof.
  intros H0 H1 H2 H3 H4.
  assert (Hn : forall n l, (length l <= n)%nat -> P l).
  { induction n as [|n IH]; intros l Hl.
    - destruct l; [exact H0 | simpl in Hl; lia].
    - destruct l as [|a [|b [|c [|d l]]]]; auto.
      apply H4, IH. simpl in Hl. lia. }
  intros l. exact (Hn (length l) l (le_n _)).
Qed.


End Reductions.

Section ReductionMaps.
Context {A A' B B' : Type}.
Variables (h : A -> A') (g : B -> B').
Variables (op : A -> A -> A) (op' : A' -> A' -> A').
Variables (f : B -> A) (f' : B' -> A').
Hypothesis h_op : forall a b, h (op a b) = op' (h a) (h b).
Hypothesis h_f : forall x, h (f x) = f' (g x).

Lemma sequential_reduce_map (l : list B) (init : A) :
  h (sequential_reduce op f l init) =
  sequential_reduce op' f' (map g l) (h init).
Proof.
  unfold sequential_reduce. revert init.
  induction l as [|x l IH]; intros init; simpl; [reflexivity|].
  now rewrite IH, h_op, h_f.
Qed.

Lemma grouped_reduce_map (l : list B) (init : A) :
  h (grouped_reduce op f l init) =
  grouped_reduce op' f' (map g l) (h init).
Proof.
  revert init. pattern l. apply list_ind4; clear l.
  - intros init. exact (sequential_reduce_map [] init).
  - intros a init. exact (sequential_reduce_map [a] init).
  - intros a b init. exact (sequential_reduce_map [a; b] init).
  - intros a b c init. exact (sequential_reduce_map [a; b; c] init).
  - intros a b c d l IH init.
    cbn [map grouped_reduce]. rewrite IH, !h_op, !h_f. reflexivity.
Qed.

End ReductionMaps.

(** ** The functions see a range through its elements and its category *)
Section SameData.
Context {T : Type} `{Sample T}.

Lemma mean_elements (first last : iterator T) :
  valid_range first last ->
  mean first last =
  divides (fold_left plus (range first last) (cast 0))
          (cast (Z.of_nat (length (range first last)))).
Proof.
  intros Hv. unfold mean, accumulate. now rewrite (distance_length _ _ Hv).
Qed.




(** No declaration of [var] is viable for a call of three arguments that
    names no [T]: in [var(InputIt, InputIt, weight)] the sample type is the
    return type only, and the two others take at most two arguments.  The
    calls of the wrappers, which name [T], have their candidate. *)
Lemma var_calls :
  var_call_viable none_named 3 = false /\ var_call_viable named_T 3 = true.
Proof. split; reflexivity. Qed.

Lemma std_no_program (first last : iterator T) (w : weight) :
  std first last w = None.
Proof. reflexivity. Qed.

End SameData.

(** ** Sums of rationals *)
Section RationalSums.
Import Formula.
Local Open Scope Q_scope.

Lemma Qsum_fold (l : list Q) (a : Q) : fold_left Qplus l a == a + Qsum l.
Proof.
  revert a. induction l as [|x l IH]; intros a; simpl.
  - ring.
  - rewrite IH. ring.
Qed.

Lemma Qsum_sequential (f : Q -> Q) (l : list Q) (a : Q) :
  sequential_reduce Qplus f l a == a + Qsum (map f l).
Proof.
  unfold sequential_reduce. revert a.
  induction l as [|x l IH]; intros a; simpl.
  - ring.
  - rewrite IH. ring.
Qed.

Lemma Qsum_grouped (f : Q -> Q) (l : list Q) (a : Q) :
  grouped_reduce Qplus f l a == a + Qsum (map f l).
Proof.
  revert a. pattern l. apply list_ind4; clear l.
  - intros a. exact (Qsum_sequential f [] a).
  - intros x a. exact (Qsum_sequential f [x] a).
  - intros x y a. exact (Qsum_sequential f [x; y] a).
  - intros x y z a. exact (Qsum_sequential f [x; y; z] a).
  - intros x y z t l IH a. cbn [map grouped_reduce]. rewrite IH.
    unfold Qsum. simpl. ring.
Qed.

Lemma Qsum_ext (f g : Q -> Q) (l : list Q) :
  (forall x, f x == g x) -> Qsum (map f l) == Qsum (map g l).
Proof.
  intros Hfg. unfold Qsum. induction l as [|x l IH]; simpl.
  - reflexivity.
  - now rewrite IH, Hfg.
Qed.

Lemma Qsum_nonneg (l : list Q) : Forall (fun x => 0 <= x) l -> 0 <= Qsum l.
Proof.
  unfold Qsum. induction 1 as [|x l Hx _ IH]; simpl.
  - apply Qle_refl.
  - replace 0 with (0 + 0) by reflexivity. now apply Qplus_le_compat.
Qed.

Lemma Qsquare_nonneg (a : Q) : 0 <= a * a.
Proof.
  destruct a as [n d]. unfold Qle, Qmult. simpl.
  rewrite Z.mul_1_r. apply Z.square_nonneg.
Qed.

Lemma sq_dev_spec_nonneg (l : list Q) : 0 <= sq_dev_spec l.
Proof.
  unfold sq_dev_spec. apply Qsum_nonneg, Forall_forall.
  intros y Hy. apply in_map_iff in Hy. destruct Hy as (x & <- & _).
  apply Qsquare_nonneg.
Qed.

End RationalSums.

(** ** Binary64 runs beside their exact values *)
Section TracedRuns.
Import Binary64 Formula.

Lemma range_trace (first last : iterator float) :
  range (trace_iterator first) (trace_iterator last) =
  map trace (range first last).
Proof.
  unfold range, trace_iterator; simpl. now rewrite skipn_map, firstn_map.
Qed.

Lemma fval_trace (l : list float) : map fval (map trace l) = l.
Proof.
  rewrite map_map. simpl. apply map_id.
Qed.

Lemma qval_trace (l : list float) : map qval (map trace l) = map toQ l.
Proof. now rewrite map_map. Qed.

Lemma fval_sum (l : list traced) (a : traced) :
  fval (fold_left plus l a) = fold_left PrimFloat.add (map fval l) (fval a).
Proof.
  exact (sequential_reduce_map fval fval tadd PrimFloat.add
           (fun x => x) (fun x => x) (fun _ _ => eq_refl) (fun _ => eq_refl) l a).
Qed.

Lemma qval_sum (l : list traced) (a : traced) :
  qval (fold_left plus l a) = fold_left Qplus (map qval l) (qval a).
Proof.
  exact (sequential_reduce_map qval qval tadd Qplus
           (fun x => x) (fun x => x) (fun _ _ => eq_refl) (fun _ => eq_refl) l a).
Qed.

Lemma fval_square (x m : traced) :
  fval (powi (minus x m) 2) = powi (minus (fval x) (fval m)) 2.
Proof. reflexivity. Qed.

Lemma qval_square (x m : traced) :
  qval (powi (minus x m) 2) =
  ((qval x - qval m) * ((qval x - qval m) * 1))%Q.
Proof. reflexivity. Qed.

Section OnARange.
Variables (first last : iterator float).
Let tfirst := trace_iterator first.
Let tlast := trace_iterator last.

(** The double of the run is the double of the program. *)
Lemma fval_mean : fval (mean tfirst tlast) = mean first last.
Proof.
  unfold mean, accumulate. change (distance tfirst tlast) with (distance first last).
  unfold tfirst, tlast. rewrite range_trace.
  cbn [divides traced_Sample tdiv fval].
  now rewrite fval_sum, fval_trace.
Qed.

Lemma qval_mean :
  qval (mean tfirst tlast) =
  (fold_left Qplus (map toQ (range first last)) 0
   / inject_Z (distance first last))%Q.
Proof.
  unfold mean, accumulate. change (distance tfirst tlast) with (distance first last).
  unfold tfirst, tlast. rewrite range_trace.
  cbn [divides traced_Sample tdiv qval].
  now rewrite qval_sum, qval_trace.
Qed.

Lemma fval_transform_reduce :
  fval (transform_reduce tfirst tlast (cast 0) plus
          (fun x => powi (minus x (mean tfirst tlast)) 2)) =
  transform_reduce first last (cast 0) plus
    (fun x => powi (minus x (mean first last)) 2).
Proof.
  unfold transform_reduce.
  change (random_access tfirst) with (random_access first).
  unfold tfirst, tlast. rewrite range_trace. fold tfirst tlast.
  rewrite <- fval_mean.
  destruct (random_access first).
  - rewrite (grouped_reduce_map fval fval tadd PrimFloat.add
               (fun x => powi (minus x (mean tfirst tlast)) 2)
               (fun y => powi (minus y (fval (mean tfirst tlast))) 2)
               (fun _ _ => eq_refl) (fun x => fval_square x _)).
    now rewrite fval_trace.
  - rewrite (sequential_reduce_map fval fval tadd PrimFloat.add
               (fun x => powi (minus x (mean tfirst tlast)) 2)
               (fun y => powi (minus y (fval (mean tfirst tlast))) 2)
               (fun _ _ => eq_refl) (fun x => fval_square x _)).
    now rewrite fval_trace.
Qed.

Lemma qval_transform_reduce :
  let mu := qval (mean tfirst tlast) in
  let sq := fun y => ((y - mu) * ((y - mu) * 1))%Q in
  qval (transform_reduce tfirst tlast (cast 0) plus
          (fun x => powi (minus x (mean tfirst tlast)) 2)) =
  if random_access first
  then grouped_reduce Qplus sq (map toQ (range first last)) 0%Q
  else sequential_reduce Qplus sq (map toQ (range first last)) 0%Q.
Proof.
  intros mu sq. unfold transform_reduce.
  change (random_access tfirst) with (random_access first).
  unfold tfirst, tlast. rewrite range_trace. fold tfirst tlast.
  destruct (random_access first).
  - rewrite (grouped_reduce_map qval qval tadd Qplus
               (fun x => powi (minus x (mean tfirst tlast)) 2) sq
               (fun _ _ => eq_refl) (fun x => qval_square x _)).
    now rewrite qval_trace.
  - rewrite (sequential_reduce_map qval qval tadd Qplus
               (fun x => powi (minus x (mean tfirst tlast)) 2) sq
               (fun _ _ => eq_refl) (fun x => qval_square x _)).
    now rewrite qval_trace.
Qed.

Lemma fval_var (w : weight) : fval (var tfirst tlast w) = var first last w.
Proof.
  unfold var. change (distance tfirst tlast) with (distance first last).
  destruct (weight_eqb w sample);
    cbn [divides traced_Sample tdiv fval]; now rewrite fval_transform_reduce.
Qed.

End OnARange.

End TracedRuns.

(** ** A run in which no operation rounds returns the value of the formula *)
Section ExactRuns.
Import Binary64 Formula.
Local Open Scope Q_scope.

Lemma exactly_spec (f : float) (q : Q) :
  exactly f q = true -> is_finite f = true /\ toQ f == q.
Proof.
  unfold exactly. rewrite andb_true_iff, Qeq_bool_iff. tauto.
Qed.

Lemma ok_tdiv (a b : traced) :
  ok (tdiv a b) = true ->
  ok a = true /\ ok b = true /\ ~ qval b == 0 /\
  is_finite (PrimFloat.div (fval a) (fval b)) = true /\
  toQ (PrimFloat.div (fval a) (fval b)) == qval a / qval b.
Proof.
  unfold tdiv; cbn [ok fval qval]. rewrite !andb_true_iff, negb_true_iff.
  intros [[[Ha Hb] Hz] He]. apply exactly_spec in He.
  repeat split; try tauto.
  intros Hq. apply Qeq_bool_iff in Hq. congruence.
Qed.

Section OnARange.
Variables (first last : iterator float).
Hypothesis Hvalid : valid_range first last.
Let tfirst := trace_iterator first.
Let tlast := trace_iterator last.
Let S := map toQ (range first last).

Lemma count_distance : inject_Z (distance first last) = count S.
Proof.
  unfold count, S. now rewrite length_map, (distance_length _ _ Hvalid).
Qed.

Lemma qval_mean_spec : qval (mean tfirst tlast) == mean_spec S.
Proof.
  unfold tfirst, tlast. rewrite qval_mean. fold S.
  rewrite count_distance, Qsum_fold. unfold mean_spec.
  now rewrite Qplus_0_l.
Qed.

Lemma qval_var_spec (w : weight) :
  qval (var tfirst tlast w) == variance_spec S w.
Proof.
  assert (Hsum : qval (transform_reduce tfirst tlast (cast 0) plus
                         (fun x => powi (minus x (mean tfirst tlast)) 2))
                 == sq_dev_spec S).
  { unfold tfirst, tlast. rewrite qval_transform_reduce. fold tfirst tlast S.
    set (mu := qval (mean tfirst tlast)).
    assert (Hmu : mu == mean_spec S) by apply qval_mean_spec.
    set (sq := fun y => (y - mu) * ((y - mu) * 1)).
    assert (Hsq : Qsum (map sq S) == sq_dev_spec S).
    { unfold sq_dev_spec. apply Qsum_ext. intros y. unfold sq.
      rewrite Hmu. ring. }
    destruct (random_access first);
      [rewrite Qsum_grouped | rewrite Qsum_sequential];
      now rewrite Qplus_0_l. }
  unfold variance_spec, divisor_spec, S. rewrite length_map.
  rewrite <- (distance_length _ _ Hvalid). fold S.
  unfold var. change (distance tfirst tlast) with (distance first last).
  destruct w; cbn [weight_eqb divides traced_Sample tdiv qval cast tcast];
    now rewrite Hsum.
Qed.

(** Where every operation of the run of [mean] returned a finite double
    that denotes its exact result, the double the program returns denotes
    the sum of the samples divided by their count. *)
Lemma mean_exact_run :
  ok (mean tfirst tlast) = true ->
  is_finite (mean first last) = true /\
  toQ (mean first last) == mean_spec S.
Proof.
  intros Hok. unfold mean in Hok. apply ok_tdiv in Hok.
  destruct Hok as (_ & _ & _ & Hfin & Heq).
  pose proof (fval_mean first last) as Hf.
  pose proof qval_mean_spec as Hq.
  unfold mean in Hf, Hq. cbn [divides traced_Sample tdiv fval qval] in Hf, Hq.
  fold tfirst tlast in Hf. rewrite Hf in Hfin, Heq.
  split; [exact Hfin|]. now rewrite Heq, Hq.
Qed.

Lemma var_exact_run (w : weight) :
  ok (var tfirst tlast w) = true ->
  is_finite (var first last w) = true /\
  toQ (var first last w) == variance_spec S w.
Proof.
  intros Hok.
  pose proof (fval_var first last w) as Hf.
  pose proof (qval_var_spec w) as Hq.
  fold tfirst tlast in Hf.
  destruct w; unfold var in Hok, Hf, Hq |- *; cbn [weight_eqb] in Hok, Hf, Hq |- *;
    apply ok_tdiv in Hok; destruct Hok as (_ & _ & _ & Hfin & Heq);
    cbn [divides traced_Sample tdiv fval qval] in Hf, Hq;
    rewrite Hf in Hfin, Heq; (split; [exact Hfin | now rewrite Heq, Hq]).
Qed.

End OnARange.

End ExactRuns.


(** ** The call shapes *)
Section CallShapes.
Context {T : Type} `{Sample T}.

(** C4: [std] is no program, in any call shape and on any input: its body
    calls [var] with three arguments and without the sample type, a call
    for which no declaration of [var] is viable.  Had the call named [T],
    as the wrappers of [var] do, it would have a candidate. *)
Theorem std_has_no_program (first last : iterator T) (x : vector T)
    (s : Signal T) (w : weight) :
  var_call_viable none_named 3 = false /\
  var_call_viable named_T 3 = true /\
  std first last w = None /\
  std_vector x w = None /\
  std_signal s w = None.
Proof. repeat split. Qed.


(** C9: a call of [var] that leaves the weighting out is the call with
    [weight::sample], whose divisor is the distance less 1, in each call
    shape; [std], declared with the same default, is no program with or
    without the weighting. *)
Theorem omitted_weight_is_sample (first last : iterator T) (x : vector T)
    (s : Signal T) :
  (var first last (opt_weight None) = var first last sample /\
   var_vector x (opt_weight None) = var_vector x sample /\
   var_signal s (opt_weight None) = var_signal s sample) /\
  var first last (opt_weight None) =
    divides (transform_reduce first last (cast 0) plus
               (fun y => powi (minus y (mean first last)) 2))
            (cast (distance first last - 1)) /\
  (std first last (opt_weight None) = None /\ std first last sample = None /\
   std_vector x (opt_weight None) = None /\ std_vector x sample = None /\
   std_signal s (opt_weight None) = None /\ std_signal s sample = None).
Proof. repeat split. Qed.

End CallShapes.

(** ** Binary64 runs of the call shapes *)
Section Binary64Shapes.
Import Binary64.



End Binary64Shapes.

(** ** Binary64 arithmetic by cases *)
Section Binary64Cases.
Import Binary64.

Lemma is_nan_eq (x : float) : PrimFloat.is_nan x = true -> x = nan.
Proof.
  intros Hx. apply Prim2SF_inj. unfold Prim2SF at 1. rewrite Hx. reflexivity.
Qed.

Lemma Prim2SF_nan_eq (x : float) : Prim2SF x = S754_nan -> x = nan.
Proof. intros Hx. apply Prim2SF_inj. rewrite Hx. reflexivity. Qed.

Lemma Prim2SF_inf_eq (x : float) (s : bool) :
  Prim2SF x = S754_infinity s -> x = inf s.
Proof. intros Hx. apply Prim2SF_inj. rewrite Hx. now destruct s. Qed.

Lemma add_nan_l (y : float) : PrimFloat.add nan y = nan.
Proof. apply Prim2SF_nan_eq. rewrite add_spec. reflexivity. Qed.

Lemma add_nan_r (x : float) : PrimFloat.add x nan = nan.
Proof.
  apply Prim2SF_nan_eq. rewrite add_spec.
  change (Prim2SF nan) with S754_nan. now destruct (Prim2SF x).
Qed.

Lemma sub_nan_r (x : float) : PrimFloat.sub x nan = nan.
Proof.
  apply Prim2SF_nan_eq. rewrite sub_spec.
  change (Prim2SF nan) with S754_nan. now destruct (Prim2SF x).
Qed.

Lemma mul_nan_l (y : float) : PrimFloat.mul nan y = nan.
Proof. apply Prim2SF_nan_eq. rewrite mul_spec. reflexivity. Qed.

Lemma div_nan_l (y : float) : PrimFloat.div nan y = nan.
Proof. apply Prim2SF_nan_eq. rewrite div_spec. reflexivity. Qed.

Lemma square_nan (x : float) : powi (minus x nan) 2 = nan.
Proof. simpl. rewrite sub_nan_r. apply mul_nan_l. Qed.

(** A division by the double 0 returns an infinity or a NaN. *)
Lemma div_zero_not_finite (a : float) :
  is_finite (PrimFloat.div a 0) = false.
Proof.
  rewrite <- (SF2Prim_Prim2SF (PrimFloat.div a 0)), div_spec.
  change (Prim2SF 0) with (S754_zero false).
  destruct (Prim2SF a) as [s|s| |s m e]; try destruct s; reflexivity.
Qed.

(** Rounding keeps the sign. *)
Lemma round_sign (s : bool) (m e : Z) (l : location) :
  sign_is s (binary_round_aux prec emax s m e l) = true.
Proof.
  unfold binary_round_aux.
  destruct (shr_fexp prec emax m e l) as [mrs' e'].
  destruct (shr_fexp prec emax _ e' loc_Exact) as [mrs'' e''].
  destruct (shr_m mrs'') as [|q|q].
  - simpl. apply eqb_reflx.
  - destruct (Z.leb e'' (Z.sub emax prec)); simpl; apply eqb_reflx.
  - reflexivity.
Qed.

Lemma normalize_sign (p : positive) (e : Z) :
  sign_is false (binary_normalize prec emax (Zpos p) e false) = true.
Proof.
  unfold binary_normalize, binary_round.
  destruct (shl_align p e _) as [mz ez]. apply round_sign.
Qed.

Lemma sign_false_not_below (x : spec_float) :
  sign_is false x = true -> not_below_zero x = true.
Proof. destruct x as [s|s| |s m e]; simpl; try reflexivity; now destruct s. Qed.

Lemma add_not_below (a b : spec_float) :
  not_below_zero a = true -> not_below_zero b = true ->
  not_below_zero (SF64add a b) = true.
Proof.
  destruct a as [sa|sa| |sa ma ea], b as [sb|sb| |sb mb eb];
    simpl; intros Ha Hb; try reflexivity; try assumption;
    try (destruct sa, sb; simpl in *; congruence).
  destruct sa, sb; try discriminate.
  unfold SF64add, SFadd. cbn [cond_Zopp Z.add].
  apply sign_false_not_below, normalize_sign.
Qed.

Lemma mul_sign (a b : spec_float) (sa sb : bool) :
  sign_is sa a = true -> sign_is sb b = true ->
  sign_is (xorb sa sb) (SF64mul a b) = true.
Proof.
  destruct a as [sx|sx| |sx mx ex], b as [sy|sy| |sy my ey];
    simpl; intros Ha Hb; try reflexivity;
    apply eqb_prop in Ha; apply eqb_prop in Hb; subst;
    try apply eqb_reflx.
  apply round_sign.
Qed.

Lemma some_sign (x : spec_float) : exists s, sign_is s x = true.
Proof.
  destruct x as [s|s| |s m e]; try (exists s; apply eqb_reflx).
  now exists false.
Qed.

Lemma square_not_below (x : float) :
  not_below_zero (Prim2SF (float_powi x 2)) = true.
Proof.
  cbn [float_powi]. rewrite !mul_spec.
  destruct (some_sign (Prim2SF x)) as [s Hs].
  assert (H1 : sign_is false (Prim2SF 1) = true) by reflexivity.
  pose proof (mul_sign _ _ _ _ Hs (mul_sign _ _ _ _ Hs H1)) as H.
  apply sign_false_not_below.
  now replace (xorb s (xorb s false)) with false in H by now destruct s.
Qed.

Lemma div_not_below (a b : spec_float) :
  not_below_zero a = true -> sign_is false b = true ->
  not_below_zero (SF64div a b) = true.
Proof.
  destruct a as [sx|sx| |sx mx ex], b as [sy|sy| |sy my ey];
    simpl; intros Ha Hb; try reflexivity;
    try (destruct sx, sy; simpl in *; congruence).
  destruct sx, sy; try discriminate.
  unfold SF64div, SFdiv.
  destruct (SFdiv_core_binary prec emax (Zpos mx) ex (Zpos my) ey) as [[mz ez] lz].
  apply sign_false_not_below. exact (round_sign false mz ez lz).
Qed.

Lemma cast_sign (z : Z) :
  (0 <= z)%Z -> sign_is false (Prim2SF (float_of_Z z)) = true.
Proof.
  intros Hz. unfold float_of_Z.
  replace (z <? 0)%Z with false by (symmetry; apply Z.ltb_ge; exact Hz).
  rewrite of_uint63_spec.
  pose proof (Uint63.to_Z_bounded (Uint63.of_Z z)) as Hb.
  destruct (Uint63.to_Z (Uint63.of_Z z)) as [|p|p].
  - reflexivity.
  - apply normalize_sign.
  - lia.
Qed.

Lemma not_nan_leb_zero (x : float) :
  not_below_zero (Prim2SF x) = true -> PrimFloat.is_nan x = false ->
  PrimFloat.leb 0 x = true.
Proof.
  intros Hx Hn. rewrite leb_spec. change (Prim2SF 0) with (S754_zero false).
  destruct (Prim2SF x) as [s|s| |s m e] eqn:E.
  - reflexivity.
  - destruct s; [discriminate Hx | reflexivity].
  - apply Prim2SF_nan_eq in E. subst x. discriminate Hn.
  - destruct s; [discriminate Hx | reflexivity].
Qed.

Lemma ltb_zero (x : float) :
  not_below_zero (Prim2SF x) = true -> PrimFloat.ltb x 0 = false.
Proof.
  rewrite ltb_spec. change (Prim2SF 0) with (S754_zero false).
  destruct (Prim2SF x) as [s|s| |s m e]; try destruct s;
    intros Hx; try discriminate Hx; reflexivity.
Qed.

End Binary64Cases.

(** ** A division by 1 is exact *)
Section DivisionByOne.
Local Open Scope Z_scope.

Lemma div_eucl_pair (a b : Z) : Z.div_eucl a b = (a / b, a mod b).
Proof. unfold Z.div, Z.modulo. now destruct (Z.div_eucl a b). Qed.

Lemma core_A (m : positive) (e : Z) :
  Zpos (digits2_pos m) = 53 -> -1074 < e ->
  SFdiv_core_binary prec emax (Zpos m) e 4503599627370496 (-52) =
  (Zpos (xO m), e - 1, loc_Exact).
Proof.
  intros Hd He. unfold SFdiv_core_binary. cbv zeta.
  change (Zdigits2 (Zpos m)) with (Zpos (digits2_pos m)). rewrite Hd.
  change (Zdigits2 4503599627370496) with 53.
  match goal with |- context [Z.min ?a ?b] =>
    replace (Z.min a b) with (e - 1) by (unfold fexp, emin, prec, emax; lia) end.
  replace (e - -52 - (e - 1)) with 53 by lia.
  change (IntDef.Z.div_eucl ?a ?b) with (Z.div_eucl a b).
  change (IntDef.Z.shiftl ?a ?b) with (Z.shiftl a b).
  rewrite div_eucl_pair, Z.shiftl_mul_pow2 by lia.
  replace (Z.pos m * 2 ^ 53) with (Z.pos (xO m) * 4503599627370496) by lia.
  rewrite Z.div_mul, Z.mod_mul by lia. reflexivity.
Qed.

Lemma core_B (m : positive) (e : Z) :
  Zpos (digits2_pos m) <= 53 -> e = -1074 ->
  SFdiv_core_binary prec emax (Zpos m) e 4503599627370496 (-52) =
  (Zpos m, e, loc_Exact).
Proof.
  intros Hd He. subst e. unfold SFdiv_core_binary. cbv zeta.
  change (Zdigits2 (Zpos m)) with (Zpos (digits2_pos m)).
  change (Zdigits2 4503599627370496) with 53.
  match goal with |- context [Z.min ?a ?b] =>
    replace (Z.min a b) with (-1074) by (unfold fexp, emin, prec, emax; lia) end.
  change (-1074 - -52 - -1074) with 52.
  change (IntDef.Z.div_eucl ?a ?b) with (Z.div_eucl a b).
  change (IntDef.Z.shiftl ?a ?b) with (Z.shiftl a b).
  rewrite div_eucl_pair, Z.shiftl_mul_pow2 by lia.
  change (2 ^ 52) with 4503599627370496.
  rewrite Z.div_mul, Z.mod_mul by lia. reflexivity.
Qed.

Lemma round_same (s : bool) (m : positive) (e : Z) :
  fexp prec emax (Zpos (digits2_pos m) + e) = e -> e <= 971 ->
  binary_round_aux prec emax s (Zpos m) e loc_Exact = S754_finite s m e.
Proof.
  intros Hc He. unfold binary_round_aux, shr_fexp.
  change (Zdigits2 (Zpos m)) with (Zpos (digits2_pos m)).
  rewrite Hc, Z.sub_diag. cbn [shr shr_record_of_loc shr_m loc_of_shr_record round_nearest_even].
  change (Zdigits2 (Zpos m)) with (Zpos (digits2_pos m)).
  rewrite Hc, Z.sub_diag. cbn [shr shr_record_of_loc shr_m].
  replace (e <=? emax - prec) with true; [reflexivity|].
  symmetry. apply Z.leb_le. unfold emax, prec. lia.
Qed.

Lemma round_A (s : bool) (m : positive) (e : Z) :
  Zpos (digits2_pos m) = 53 -> -1074 < e <= 971 ->
  binary_round_aux prec emax s (Zpos (xO m)) (e - 1) loc_Exact = S754_finite s m e.
Proof.
  intros Hd He. unfold binary_round_aux, shr_fexp.
  change (Zdigits2 (Zpos (xO m))) with (Zpos (Pos.succ (digits2_pos m))).
  rewrite Pos2Z.inj_succ, Hd.
  replace (fexp prec emax (Z.succ 53 + (e - 1)) - (e - 1)) with 1
    by (unfold fexp, emin, prec, emax; lia).
  cbn [shr SpecFloat.iter_pos shr_1 shr_record_of_loc shr_m loc_of_shr_record round_nearest_even orb].
  change (Zdigits2 (Zpos m)) with (Zpos (digits2_pos m)). rewrite Hd.
  replace (fexp prec emax (53 + (e - 1 + 1)) - (e - 1 + 1)) with 0
    by (unfold fexp, emin, prec, emax; lia).
  cbn [shr shr_record_of_loc shr_m].
  replace (e - 1 + 1 <=? emax - prec) with true;
    [f_equal; lia|].
  symmetry. apply Z.leb_le. unfold emax, prec. lia.
Qed.

Lemma SFdiv_one (s : bool) (m : positive) (e : Z) :
  bounded prec emax m e = true ->
  SF64div (S754_finite s m e) (S754_finite false 4503599627370496 (-52)) =
  S754_finite s m e.
Proof.
  unfold bounded, canonical_mantissa. rewrite andb_true_iff, Z.eqb_eq, Z.leb_le.
  intros [Hc He]. unfold emax, prec in He.
  assert (Hcase : (Zpos (digits2_pos m) = 53 /\ -1074 < e) \/
                  (Zpos (digits2_pos m) <= 53 /\ e = -1074)).
  { revert Hc. unfold fexp, emin, prec, emax. lia. }
  unfold SF64div, SFdiv. rewrite xorb_false_r.
  destruct Hcase as [[Hd He'] | [Hd He']].
  - rewrite (core_A m e Hd He'). apply round_A; [exact Hd | lia].
  - rewrite (core_B m e Hd He'). apply round_same; [exact Hc | lia].
Qed.

End DivisionByOne.

(** ** Operations that return no NaN *)
Section Numbers.
Import Binary64.
Local Open Scope Z_scope.

Lemma shr_1_nonneg (r : shr_record) : 0 <= shr_m r -> 0 <= shr_m (shr_1 r).
Proof.
  destruct r as [m r s]. destruct m as [|[p|p|]|p]; simpl; lia.
Qed.

Lemma iter_shr_nonneg (p : positive) (r : shr_record) :
  0 <= shr_m r -> 0 <= shr_m (SpecFloat.iter_pos shr_1 p r).
Proof.
  revert r. induction p as [p IH|p IH|]; intros r Hr; simpl.
  - apply IH, IH, shr_1_nonneg, Hr.
  - apply IH, IH, Hr.
  - apply shr_1_nonneg, Hr.
Qed.

Lemma shr_fexp_nonneg (m e : Z) (l : location) :
  0 <= m -> 0 <= shr_m (fst (shr_fexp prec emax m e l)).
Proof.
  intros Hm. unfold shr_fexp, shr.
  assert (H0 : 0 <= shr_m (shr_record_of_loc m l))
    by (destruct l as [|[| |]]; exact Hm).
  destruct (fexp prec emax (Zdigits2 m + e) - e); simpl; try exact H0.
  apply iter_shr_nonneg, H0.
Qed.

Lemma round_nearest_even_nonneg (m : Z) (l : location) :
  0 <= m -> 0 <= round_nearest_even m l.
Proof.
  intros Hm. destruct l as [|[| |]]; simpl; try lia.
  destruct (Z.even m); lia.
Qed.

Lemma round_is_number (s : bool) (m e : Z) (l : location) :
  0 <= m -> is_number (binary_round_aux prec emax s m e l) = true.
Proof.
  intros Hm. unfold binary_round_aux.
  pose proof (shr_fexp_nonneg m e l Hm) as H1.
  destruct (shr_fexp prec emax m e l) as [mrs' e']. simpl in H1.
  pose proof (shr_fexp_nonneg _ e' loc_Exact
                (round_nearest_even_nonneg _ (loc_of_shr_record mrs') H1)) as H2.
  destruct (shr_fexp prec emax _ e' loc_Exact) as [mrs'' e'']. simpl in H2.
  destruct (shr_m mrs'') as [|q|q]; [reflexivity | | lia].
  now destruct (e'' <=? emax - prec).
Qed.

Lemma normalize_is_number (z e : Z) :
  is_number (binary_normalize prec emax z e false) = true.
Proof.
  destruct z as [|p|p]; [reflexivity| |]; unfold binary_normalize, binary_round;
    destruct (shl_align p e _) as [mz ez]; apply round_is_number; lia.
Qed.

Lemma add_number (a b : spec_float) :
  is_number a = true -> finite_or_zero b = true ->
  is_number (SF64add a b) = true.
Proof.
  destruct a as [sa|sa| |sa ma ea], b as [sb|sb| |sb mb eb];
    simpl; intros Ha Hb; try discriminate; try reflexivity.
  - now destruct sa, sb.
  - apply normalize_is_number.
Qed.

Lemma add_clear_number (a b : spec_float) :
  is_number a = true -> not_below_zero a = true ->
  is_number b = true -> not_below_zero b = true ->
  is_number (SF64add a b) = true.
Proof.
  destruct a as [sa|sa| |sa ma ea], b as [sb|sb| |sb mb eb];
    simpl; intros Ha Ha' Hb Hb'; try discriminate; try reflexivity.
  - now destruct sa, sb.
  - now destruct sa, sb.
  - apply normalize_is_number.
Qed.

Lemma sub_number (a b : spec_float) :
  finite_or_zero a = true -> is_number b = true ->
  is_number (SF64sub a b) = true.
Proof.
  destruct a as [sa|sa| |sa ma ea], b as [sb|sb| |sb mb eb];
    simpl; intros Ha Hb; try discriminate; try reflexivity.
  - now destruct sa, sb.
  - apply normalize_is_number.
Qed.

Lemma div_number (a : spec_float) (m : positive) (e : Z) :
  is_number a = true ->
  is_number (SF64div a (S754_finite false m e)) = true.
Proof.
  destruct a as [sa|sa| |sa ma ea]; simpl; intros Ha;
    try discriminate; try reflexivity.
  unfold SF64div, SFdiv.
  destruct (SFdiv_core_binary prec emax (Zpos ma) ea (Zpos m) e)
    as [[mz ez] lz] eqn:E.
  apply round_is_number.
  unfold SFdiv_core_binary in E. cbv zeta in E.
  change (IntDef.Z.div_eucl ?x ?y) with (Z.div_eucl x y) in E.
  change (IntDef.Z.shiftl ?x ?y) with (Z.shiftl x y) in E.
  rewrite div_eucl_pair in E. injection E as <- _ _.
  apply Z.div_pos; [|lia].
  match goal with |- 0 <= match ?k with _ => _ end =>
    destruct k eqn:Ek; try lia end.
  apply Z.shiftl_nonneg. lia.
Qed.

Lemma square_number (d : spec_float) :
  is_number d = true ->
  is_number (SF64mul d (SF64mul d (Prim2SF 1))) = true.
Proof.
  change (Prim2SF 1) with (S754_finite false 4503599627370496 (-52)).
  destruct d as [s|s| |s m e]; intros Hd; try discriminate; try reflexivity.
  assert (Hr : is_number (SF64mul (S754_finite s m e)
                 (S754_finite false 4503599627370496 (-52))) = true)
    by (apply round_is_number; lia).
  destruct (SF64mul (S754_finite s m e)
              (S754_finite false 4503599627370496 (-52))) as [s'|s'| |s' m' e'];
    try discriminate; try reflexivity.
  apply round_is_number. lia.
Qed.

Lemma digits_bound (p : positive) (k : Z) :
  0 <= k -> Zpos p < 2 ^ k -> Zpos (digits2_pos p) <= k.
Proof.
  revert k. induction p as [p IH|p IH|]; intros k Hk Hp.
  - assert (Hk' : 0 < k) by (destruct (Z.eq_dec k 0); [subst; simpl in Hp|]; lia).
    replace k with (Z.succ (k - 1)) in Hp by lia.
    rewrite Z.pow_succ_r in Hp by lia.
    specialize (IH (k - 1) ltac:(lia) ltac:(lia)).
    cbn [digits2_pos]. lia.
  - assert (Hk' : 0 < k) by (destruct (Z.eq_dec k 0); [subst; simpl in Hp|]; lia).
    replace k with (Z.succ (k - 1)) in Hp by lia.
    rewrite Z.pow_succ_r in Hp by lia.
    specialize (IH (k - 1) ltac:(lia) ltac:(lia)).
    cbn [digits2_pos]. lia.
  - assert (Hk' : 0 < k) by (destruct (Z.eq_dec k 0); [subst; simpl in Hp|]; lia).
    simpl. lia.
Qed.

Lemma digits_shift (p k : positive) :
  Zpos (digits2_pos (Pos.iter xO p k)) = Zpos (digits2_pos p) + Zpos k.
Proof.
  induction k as [|k IH] using Pos.peano_ind.
  - simpl. lia.
  - rewrite Pos.iter_succ. cbn [digits2_pos]. lia.
Qed.

(** The conversion of a count below [2^53] is a positive double. *)
Lemma cast_positive (n : Z) :
  0 < n < 2 ^ 53 ->
  exists m e, Prim2SF (float_of_Z n) = S754_finite false m e.
Proof.
  intros Hn. unfold float_of_Z.
  replace (n <? 0) with false by (symmetry; apply Z.ltb_ge; lia).
  rewrite of_uint63_spec, Uint63.of_Z_spec.
  rewrite Z.mod_small by (change Uint63.wB with (2 ^ 63); split; [lia|];
                          apply Z.lt_trans with (2 ^ 53); [lia | reflexivity]).
  destruct n as [|p|p]; try lia.
  unfold binary_normalize, binary_round.
  pose proof (digits_bound p 53 ltac:(lia) ltac:(lia)) as Hd.
  assert (Hd1 : 1 <= Zpos (digits2_pos p)) by lia.
  replace (fexp prec emax (Zpos (digits2_pos p) + 0))
    with (Zpos (digits2_pos p) - 53) by (unfold fexp, emin, prec, emax; lia).
  unfold shl_align.
  destruct (Zpos (digits2_pos p) - 53 - 0) as [|k|k] eqn:Ek; try lia.
  - exists p, 0. apply round_same; [|lia].
    unfold fexp, emin, prec, emax. lia.
  - exists (Pos.iter xO p k), (Zpos (digits2_pos p) - 53).
    apply round_same; [|lia].
    rewrite digits_shift. unfold fexp, emin, prec, emax. lia.
Qed.

End Numbers.

(** ** What a reduction keeps *)
Section ReductionInvariant.
Context {A B : Type}.
Variables (P : A -> Prop) (op : A -> A -> A) (f : B -> A).
Hypothesis P_op : forall a b, P a -> P b -> P (op a b).
Hypothesis P_f : forall x, P (f x).

Lemma sequential_reduce_keeps (l : list B) (init : A) :
  P init -> P (sequential_reduce op f l init).
Proof.
  unfold sequential_reduce. revert init.
  induction l as [|x l IH]; intros init Hi; simpl; [exact Hi|].
  apply IH, P_op; [exact Hi | apply P_f].
Qed.

Lemma grouped_reduce_keeps (l : list B) (init : A) :
  P init -> P (grouped_reduce op f l init).
Proof.
  revert init. pattern l. apply list_ind4; clear l.
  - intros init. exact (sequential_reduce_keeps [] init).
  - intros a init. exact (sequential_reduce_keeps [a] init).
  - intros a b init. exact (sequential_reduce_keeps [a; b] init).
  - intros a b c init. exact (sequential_reduce_keeps [a; b; c] init).
  - intros a b c d l IH init Hi. cbn [grouped_reduce].
    apply IH. repeat apply P_op; auto.
Qed.

End ReductionInvariant.

(** ** The variance is never below zero *)
Section NeverNegative.
Import Binary64.

Lemma sum_of_squares_not_below (first last : iterator float) (mu : float) :
  not_below_zero
    (Prim2SF (transform_reduce first last (cast 0) plus
                (fun x => powi (minus x mu) 2))) = true.
Proof.
  set (P := fun x : float => not_below_zero (Prim2SF x) = true).
  assert (Hop : forall a b, P a -> P b -> P (plus a b)).
  { intros a b Ha Hb. unfold P. simpl plus. rewrite add_spec.
    now apply add_not_below. }
  assert (Hf : forall x, P (powi (minus x mu) 2))
    by (intros x; apply square_not_below).
  assert (H0 : P (cast 0)) by reflexivity.
  unfold transform_reduce. destruct (random_access first).
  - exact (grouped_reduce_keeps P plus _ Hop Hf _ _ H0).
  - exact (sequential_reduce_keeps P plus _ Hop Hf _ _ H0).
Qed.

Lemma var_not_below (first last : iterator float) (w : weight) :
  valid_range first last ->
  not_below_zero (Prim2SF (var first last w)) = true.
Proof.
  intros Hv.
  pose proof (sum_of_squares_not_below first last (mean first last)) as Hs.
  assert (Hd : (0 <= distance first last)%Z)
    by (rewrite (distance_length _ _ Hv); lia).
  unfold var. destruct w; cbn [weight_eqb].
  - destruct (Z.eq_dec (distance first last) 0) as [E|E].
    + assert (Hp : pos first = pos last) by (unfold distance in E; lia).
      destruct (range_empty first last Hp) as [Hr _].
      unfold transform_reduce. rewrite Hr, E.
      destruct (random_access first); reflexivity.
    + simpl divides. rewrite div_spec.
      apply div_not_below; [exact Hs | apply cast_sign; lia].
  - simpl divides. rewrite div_spec.
    apply div_not_below; [exact Hs | apply cast_sign; exact Hd].
Qed.

End NeverNegative.

(** ** NaN and infinite samples *)
Section SpecialSamples.
Import Binary64.

Lemma sequential_from_nan (f : float -> float) (l : list float) :
  sequential_reduce PrimFloat.add f l nan = nan.
Proof.
  unfold sequential_reduce.
  induction l as [|a l IH]; [reflexivity|]. simpl. now rewrite add_nan_l.
Qed.

Lemma grouped_from_nan (f : float -> float) (l : list float) :
  grouped_reduce PrimFloat.add f l nan = nan.
Proof.
  pattern l. apply list_ind4; clear l.
  - exact (sequential_from_nan f []).
  - intros a. exact (sequential_from_nan f [a]).
  - intros a b. exact (sequential_from_nan f [a; b]).
  - intros a b c. exact (sequential_from_nan f [a; b; c]).
  - intros a b c d l IH. cbn [grouped_reduce]. now rewrite add_nan_l.
Qed.

Lemma sequential_has_nan (f : float -> float) (l : list float) (init : float) :
  (exists x, In x l /\ f x = nan) ->
  sequential_reduce PrimFloat.add f l init = nan.
Proof.
  revert init. induction l as [|a l IH]; intros init (x & Hin & Hx).
  - contradiction.
  - destruct Hin as [-> | Hin].
    + unfold sequential_reduce. simpl. rewrite Hx, add_nan_r.
      apply sequential_from_nan.
    + apply (IH (PrimFloat.add init (f a))). now exists x.
Qed.

Lemma grouped_has_nan (f : float -> float) (l : list float) (init : float) :
  (exists x, In x l /\ f x = nan) ->
  grouped_reduce PrimFloat.add f l init = nan.
Proof.
  revert init. pattern l. apply list_ind4; clear l.
  - intros init. exact (sequential_has_nan f [] init).
  - intros a init. exact (sequential_has_nan f [a] init).
  - intros a b init. exact (sequential_has_nan f [a; b] init).
  - intros a b c init. exact (sequential_has_nan f [a; b; c] init).
  - intros a b c d l IH init (x & Hin & Hx). cbn [grouped_reduce].
    destruct Hin as [-> | [-> | [-> | [-> | Hin]]]];
      try (rewrite Hx; repeat (rewrite add_nan_l || rewrite add_nan_r);
           apply grouped_from_nan).
    apply IH. now exists x.
Qed.

Lemma reduce_has_nan (first last : iterator float) (f : float -> float) :
  (exists x, In x (range first last) /\ f x = nan) ->
  transform_reduce first last (cast 0) plus f = nan.
Proof.
  intros Hx. unfold transform_reduce.
  destruct (random_access first);
    [apply grouped_has_nan | apply sequential_has_nan]; exact Hx.
Qed.

Lemma sum_has_nan (l : list float) (init : float) :
  In nan l -> fold_left PrimFloat.add l init = nan.
Proof.
  intros Hin.
  apply (sequential_has_nan (fun x => x) l init). now exists nan.
Qed.

(** X13: in binary64, one NaN among the samples of a range makes [mean]
    and [var] return a NaN, with either weighting and for either category
    of iterators: the code filters no sample out. *)
Theorem nan_sample_propagates (first last : iterator float) (w : weight) :
  existsb PrimFloat.is_nan (range first last) = true ->
  PrimFloat.is_nan (mean first last) = true /\
  PrimFloat.is_nan (var first last w) = true.
Proof.
  intros Hex. apply existsb_exists in Hex. destruct Hex as (x & Hin & Hx).
  apply is_nan_eq in Hx. subst x.
  assert (Hm : mean first last = nan).
  { unfold mean, accumulate. simpl plus. rewrite (sum_has_nan _ _ Hin).
    apply div_nan_l. }
  assert (Hv : var first last w = nan).
  { unfold var. rewrite Hm.
    rewrite (reduce_has_nan first last (fun x => powi (minus x nan) 2)).
    - destruct (weight_eqb w sample); apply div_nan_l.
    - exists nan. split; [exact Hin | apply square_nan]. }
  rewrite Hm, Hv. split; reflexivity.
Qed.

Lemma nan_sample_propagates_witness :
  PrimFloat.is_nan (mean (vbegin [1; nan; 3]%float) (vend [1; nan; 3]%float)) = true /\
  PrimFloat.is_nan (var (vbegin [1; nan; 3]%float) (vend [1; nan; 3]%float) sample) = true.
Proof.
  apply (nan_sample_propagates (vbegin [1; nan; 3]%float) (vend [1; nan; 3]%float) sample).
  reflexivity.
Defined.

(** X2: in binary64, on every empty range [mean] and the population [var]
    return a NaN, 0 / 0, while the sample [var] returns the negative zero,
    0 / -1: no NaN marks the empty input there. *)
Theorem empty_range_binary64 (first last : iterator float) :
  pos first = pos last ->
  PrimFloat.is_nan (mean first last) = true /\
  PrimFloat.is_nan (var first last population) = true /\
  var first last sample = (-0)%float.
Proof.
  intros E. destruct (range_empty first last E) as [Hr Hd].
  unfold var, mean, accumulate, transform_reduce. rewrite Hr, Hd.
  destruct (random_access first); vm_compute; repeat split.
Qed.

Lemma empty_range_binary64_witness :
  PrimFloat.is_nan (mean buffer_first buffer_first) = true /\
  PrimFloat.is_nan (var buffer_first buffer_first population) = true /\
  var buffer_first buffer_first sample = (-0)%float.
Proof.
  apply (empty_range_binary64 buffer_first buffer_first). reflexivity.
Defined.

End SpecialSamples.

(** ** A single finite sample *)
Section SingleSample.
Import Binary64.

Lemma finite_cases (x : float) :
  is_finite x = true ->
  (exists s, Prim2SF x = S754_zero s) \/
  (exists s m e, Prim2SF x = S754_finite s m e).
Proof.
  intros Hx. destruct (Prim2SF x) as [s|s| |s m e] eqn:E.
  - left. now exists s.
  - apply Prim2SF_inf_eq in E. subst x. now destruct s.
  - apply Prim2SF_nan_eq in E. subst x. discriminate Hx.
  - right. now exists s, m, e.
Qed.

Lemma zero_cases (x : float) (s : bool) :
  Prim2SF x = S754_zero s -> x = 0%float \/ x = (-0)%float.
Proof.
  intros E. destruct s; [right | left]; apply Prim2SF_inj; rewrite E; reflexivity.
Qed.

Lemma add_zero_l (x : float) (s : bool) (m : positive) (e : Z) :
  Prim2SF x = S754_finite s m e -> PrimFloat.add 0 x = x.
Proof.
  intros E. apply Prim2SF_inj. rewrite add_spec, E. reflexivity.
Qed.

Lemma div_one (x : float) (s : bool) (m : positive) (e : Z) :
  Prim2SF x = S754_finite s m e -> PrimFloat.div x 1 = x.
Proof.
  intros E. apply Prim2SF_inj. rewrite div_spec, E.
  change (Prim2SF 1) with (S754_finite false 4503599627370496 (-52)).
  apply SFdiv_one. pose proof (Prim2SF_valid x) as Hv. now rewrite E in Hv.
Qed.

Lemma sub_self (x : float) (s : bool) (m : positive) (e : Z) :
  Prim2SF x = S754_finite s m e -> PrimFloat.sub x x = 0%float.
Proof.
  intros E. apply Prim2SF_inj. rewrite sub_spec, E.
  unfold SF64sub, SFsub. cbv zeta.
  change (IntDef.Z.sub ?a ?b) with (Z.sub a b). now rewrite Z.sub_diag.
Qed.

(** The run of [var] on a range that holds the one finite sample [x]. *)
Lemma var_single (x : float) (first last : iterator float) :
  valid_range first last -> range first last = [x] ->
  is_finite x = true ->
  var first last population = 0%float /\
  PrimFloat.is_nan (var first last sample) = true.
Proof.
  intros Hv Hd Hx.
  assert (Hn : distance first last = 1%Z)
    by (rewrite (distance_length _ _ Hv), Hd; reflexivity).
  assert (Hsq : powi (minus x (mean first last)) 2 = 0%float).
  { unfold mean, accumulate. rewrite Hd, Hn.
    destruct (finite_cases x Hx) as [[s E] | (s & m & e & E)].
    - destruct (zero_cases x s E) as [-> | ->]; reflexivity.
    - cbn [fold_left]. change (cast 0) with 0%float.
      change (plus 0%float x) with (PrimFloat.add 0 x).
      rewrite (add_zero_l x s m e E).
      change (divides x (cast 1)) with (PrimFloat.div x 1).
      rewrite (div_one x s m e E).
      change (minus x x) with (PrimFloat.sub x x).
      rewrite (sub_self x s m e E). reflexivity. }
  assert (Hred : transform_reduce first last (cast 0) plus
                   (fun y => powi (minus y (mean first last)) 2) = 0%float).
  { unfold transform_reduce. rewrite Hd.
    assert (E : sequential_reduce plus
                  (fun y => powi (minus y (mean first last)) 2) [x] (cast 0)
                = 0%float).
    { unfold sequential_reduce. cbn [fold_left]. rewrite Hsq. reflexivity. }
    destruct (random_access first); exact E. }
  unfold var. rewrite Hred, Hn. split; reflexivity.
Qed.

End SingleSample.

(** ** The variance of finite samples is a number *)
Section FiniteSamples.
Import Binary64.

Section KeptOnAList.
Context {A B : Type}.
Variables (P : A -> Prop) (op : A -> A -> A) (f : B -> A).
Hypothesis P_op : forall a b, P a -> P b -> P (op a b).

Lemma sequential_reduce_keeps_on (l : list B) (init : A) :
  (forall x, In x l -> P (f x)) -> P init ->
  P (sequential_reduce op f l init).
Proof.
  unfold sequential_reduce. revert init.
  induction l as [|x l IH]; intros init Hf Hi; simpl; [exact Hi|].
  apply IH.
  - intros y Hy. apply Hf. now right.
  - apply P_op; [exact Hi | apply Hf; now left].
Qed.

Lemma grouped_reduce_keeps_on (l : list B) (init : A) :
  (forall x, In x l -> P (f x)) -> P init ->
  P (grouped_reduce op f l init).
Proof.
  revert init. pattern l. apply list_ind4; clear l.
  - intros init. exact (sequential_reduce_keeps_on [] init).
  - intros a init. exact (sequential_reduce_keeps_on [a] init).
  - intros a b init. exact (sequential_reduce_keeps_on [a; b] init).
  - intros a b c init. exact (sequential_reduce_keeps_on [a; b; c] init).
  - intros a b c d l IH init Hf Hi. cbn [grouped_reduce].
    apply IH.
    + intros y Hy. apply Hf. simpl. tauto.
    + repeat apply P_op; try exact Hi; apply Hf; simpl; tauto.
Qed.

End KeptOnAList.

Lemma finite_is_finite_or_zero (x : float) :
  is_finite x = true -> finite_or_zero (Prim2SF x) = true.
Proof.
  intros Hx. destruct (finite_cases x Hx) as [[s E] | (s & m & e & E)];
    now rewrite E.
Qed.

Lemma number_not_nan (x : float) :
  is_number (Prim2SF x) = true -> PrimFloat.is_nan x = false.
Proof.
  intros Hx. destruct (PrimFloat.is_nan x) eqn:E; [|reflexivity].
  apply is_nan_eq in E. subst x. discriminate Hx.
Qed.

Lemma sum_is_number (l : list float) (init : float) :
  forallb is_finite l = true -> is_number (Prim2SF init) = true ->
  is_number (Prim2SF (fold_left PrimFloat.add l init)) = true.
Proof.
  revert init. induction l as [|x l IH]; intros init Hl Hi; [exact Hi|].
  simpl in Hl. apply andb_true_iff in Hl. destruct Hl as [Hx Hl].
  simpl. apply IH; [exact Hl|]. rewrite add_spec.
  apply add_number; [exact Hi | apply finite_is_finite_or_zero, Hx].
Qed.

(** On a valid range of finite samples whose count is positive and below
    [2^53], [mean] returns no NaN. *)
Lemma mean_is_number (first last : iterator float) :
  valid_range first last ->
  forallb is_finite (range first last) = true ->
  (0 < distance first last < 2 ^ 53)%Z ->
  is_number (Prim2SF (mean first last)) = true.
Proof.
  intros Hv Hf Hn.
  destruct (cast_positive _ Hn) as (m & e & Hc).
  change (mean first last)
    with (PrimFloat.div (fold_left PrimFloat.add (range first last) (cast 0))
                        (float_of_Z (distance first last))).
  rewrite div_spec, Hc. apply div_number.
  apply sum_is_number; [exact Hf | reflexivity].
Qed.

Lemma mean_of_finite_run (first last : iterator float) :
  valid_range first last ->
  forallb is_finite (range first last) = true ->
  (0 < distance first last < 2 ^ 53)%Z ->
  PrimFloat.is_nan (mean first last) = false.
Proof.
  intros Hv Hf Hn. apply number_not_nan, mean_is_number; assumption.
Qed.

Lemma sum_of_squares_is_number (first last : iterator float) (mu : float) :
  forallb is_finite (range first last) = true ->
  is_number (Prim2SF mu) = true ->
  is_number (Prim2SF (transform_reduce first last (cast 0) plus
                        (fun x => powi (minus x mu) 2))) = true /\
  not_below_zero (Prim2SF (transform_reduce first last (cast 0) plus
                             (fun x => powi (minus x mu) 2))) = true.
Proof.
  intros Hf Hmu.
  set (P := fun x : float =>
              is_number (Prim2SF x) = true /\ not_below_zero (Prim2SF x) = true).
  assert (Hop : forall a b, P a -> P b -> P (plus a b)).
  { intros a b [Ha Ha'] [Hb Hb']. unfold P. simpl plus. rewrite add_spec.
    split; [now apply add_clear_number | now apply add_not_below]. }
  assert (Hsq : forall x, In x (range first last) -> P (powi (minus x mu) 2)).
  { intros x Hx. rewrite forallb_forall in Hf. specialize (Hf x Hx).
    split; [|apply square_not_below].
    cbn [powi float_Sample float_powi minus]. rewrite !mul_spec, sub_spec.
    apply square_number, sub_number;
      [apply finite_is_finite_or_zero, Hf | exact Hmu]. }
  assert (H0 : P (cast 0)) by (split; reflexivity).
  unfold transform_reduce. destruct (random_access first).
  - exact (grouped_reduce_keeps_on P plus _ Hop _ _ Hsq H0).
  - exact (sequential_reduce_keeps_on P plus _ Hop _ _ Hsq H0).
Qed.

(** On a valid range of finite samples, within the size precondition of the
    weighting and below [2^53] samples, [var] returns a number that is at
    least 0. *)
Lemma var_is_number (first last : iterator float) (w : weight) :
  valid_range first last ->
  forallb is_finite (range first last) = true ->
  Formula.well_sized (length (range first last)) w ->
  (distance first last < 2 ^ 53)%Z ->
  PrimFloat.is_nan (var first last w) = false /\
  PrimFloat.leb 0 (var first last w) = true.
Proof.
  intros Hv Hf Hw Hn.
  pose proof (distance_length _ _ Hv) as Hd.
  assert (Hpos : (0 < distance first last)%Z)
    by (destruct w; simpl in Hw; lia).
  pose proof (mean_is_number first last Hv Hf (conj Hpos Hn)) as Hmu.
  destruct (sum_of_squares_is_number first last (mean first last) Hf Hmu)
    as [Hs Hs'].
  assert (Hnum : is_number (Prim2SF (var first last w)) = true).
  { unfold var. destruct w; cbn [weight_eqb].
    - destruct (cast_positive (distance first last - 1)) as (m & e & Hc);
        [simpl in Hw; lia|].
      simpl divides. change (cast ?z) with (float_of_Z z) in Hc |- *.
      rewrite div_spec, Hc. now apply div_number.
    - destruct (cast_positive (distance first last)) as (m & e & Hc);
        [lia|].
      simpl divides. change (cast ?z) with (float_of_Z z) in Hc |- *.
      rewrite div_spec, Hc. now apply div_number. }
  pose proof (number_not_nan _ Hnum) as Hnan.
  split; [exact Hnan|].
  apply not_nan_leb_zero; [apply var_not_below, Hv | exact Hnan].
Qed.

End FiniteSamples.

(** ** The operations at binary64 *)
Section Operations.
Import Binary64 Formula.
Local Open Scope Q_scope.

(** C1 as stated fails at binary64: the three finite samples 1e16, 1 and
    -1e16 have sum 1 and mean 1/3, and [mean] returns 0, the 1 being lost
    when it is added to 1e16. *)
Lemma mean_rounds_binary64 :
  cancelling <> [] /\
  forallb is_finite cancelling = true /\
  mean_vector cancelling = 0%float /\
  Qred (mean_spec (map toQ cancelling)) = 1 # 3 /\
  Qeq_bool (toQ (mean_vector cancelling)) (mean_spec (map toQ cancelling)) = false.
Proof.
  split; [discriminate|]. vm_compute. repeat split.
Qed.

(** C1, as the code has it: for every non-empty sequence [S] of doubles,
    [mean], called on an iterator pair delimiting [S], on a vector or on a
    Signal holding [S], returns the sum of the elements accumulated left to
    right from 0, each addition rounded, divided by the count converted to
    double; for finite samples, fewer than 2^53 of them, the result is no
    NaN; where no operation of that run rounds or overflows, it is the sum
    of all elements of [S] divided by their count. *)
Theorem mean_sum_over_count (S : list float) (first last : iterator float)
    (s : Signal float) :
  S <> [] ->
  valid_range first last -> range first last = S -> samples s = S ->
  let sum := fold_left PrimFloat.add S 0%float in
  let result := PrimFloat.div sum (float_of_Z (Z.of_nat (length S))) in
  (mean first last = result /\ mean_vector S = result /\
   mean_signal s = result) /\
  (forallb is_finite S = true -> (Z.of_nat (length S) < 2 ^ 53)%Z ->
   PrimFloat.is_nan result = false) /\
  (ok (mean (trace_iterator first) (trace_iterator last)) = true ->
   is_finite result = true /\
   toQ result == Qsum (map toQ S) / inject_Z (Z.of_nat (length S))).
Proof.
  intros Hne Hv Hd Hs sum result.
  assert (Hm : mean first last = result).
  { rewrite (mean_elements _ _ Hv), Hd. reflexivity. }
  split; [repeat split|split].
  - exact Hm.
  - unfold mean_vector.
    rewrite (mean_elements _ _ (valid_whole S)), range_whole. reflexivity.
  - unfold mean_signal.
    rewrite (mean_elements _ _ (valid_signal s)), range_signal, Hs. reflexivity.
  - intros Hf Hlt. rewrite <- Hm.
    apply (mean_of_finite_run first last Hv); [now rewrite Hd|].
    rewrite (distance_length _ _ Hv), Hd.
    destruct S; [contradiction | simpl length in *; lia].
  - intros Hok. destruct (mean_exact_run first last Hv Hok) as [Hfin Heq].
    rewrite Hm, Hd in *. split; [exact Hfin|].
    rewrite Heq. unfold mean_spec, count. now rewrite length_map.
Qed.

Lemma mean_sum_over_count_witness :
  let sum := fold_left PrimFloat.add one_to_five 0%float in
  let result := PrimFloat.div sum (float_of_Z (Z.of_nat (length one_to_five))) in
  (mean buffer_first buffer_last = result /\ mean_vector one_to_five = result /\
   mean_signal (MkSignal one_to_five false) = result) /\
  PrimFloat.is_nan result = false /\
  is_finite result = true /\
  toQ result == Qsum (map toQ one_to_five) / inject_Z (Z.of_nat (length one_to_five)).
Proof.
  destruct (mean_sum_over_count one_to_five buffer_first buffer_last
              (MkSignal one_to_five false)) as (Hshapes & Hnumber & Hexact).
  - discriminate.
  - unfold valid_range; simpl. repeat split; lia.
  - reflexivity.
  - reflexivity.
  - split; [exact Hshapes|].
    split; [apply Hnumber; [reflexivity | simpl; lia]|].
    apply Hexact; vm_compute; reflexivity.
Defined.







(** C6 as stated fails at binary64: two finite samples, enough for [mean]
    and for [var] with either weighting, on which the sum overflows and the
    results are not finite; and three finite samples on which [mean] returns
    a finite value that is not the mean. *)
Lemma binary64_overflow :
  (forallb is_finite two_large = true /\
   length two_large = 2%nat /\
   is_finite (mean_vector two_large) = false /\
   is_finite (var_vector two_large sample) = false /\
   is_finite (var_vector two_large population) = false) /\
  (forallb is_finite cancelling = true /\
   length cancelling = 3%nat /\
   is_finite (mean_vector cancelling) = true /\
   Qeq_bool (toQ (mean_vector cancelling)) (mean_spec (map toQ cancelling)) = false).
Proof. vm_compute. repeat split. Qed.

(** C8: on the samples 1, 2, 3, 4, 5, [mean] returns 3 and [var] returns
    2.5 with [weight::sample] and 2 with [weight::population], as a vector,
    as a Signal and as a range of either category; [std], which should
    return their square roots, is no program. *)
Theorem one_to_five_statistics :
  (mean_vector one_to_five = 3%float /\
   var_vector one_to_five sample = 2.5%float /\
   var_vector one_to_five population = 2%float) /\
  (mean buffer_first buffer_last = 3%float /\
   var buffer_first buffer_last sample = 2.5%float /\
   var buffer_first buffer_last population = 2%float) /\
  (mean list_first list_last = 3%float /\
   var list_first list_last sample = 2.5%float /\
   var list_first list_last population = 2%float) /\
  (std_vector one_to_five sample = None /\
   std_vector one_to_five population = None /\
   std buffer_first buffer_last sample = None /\
   std_signal (MkSignal one_to_five true) population = None).
Proof. vm_compute. repeat split. Qed.

End Operations.

(** ** Sign and size of the variance *)
Section VarianceSign.
Import Binary64 Formula.
Local Open Scope Q_scope.

Lemma finite_not_nan (x : float) :
  is_finite x = true -> PrimFloat.is_nan x = false.
Proof.
  unfold is_finite. rewrite negb_true_iff, orb_false_iff. tauto.
Qed.

Lemma variance_spec_nonneg (S : list Q) (w : weight) :
  well_sized (length S) w -> 0 <= variance_spec S w.
Proof.
  intros Hw. unfold variance_spec, Qdiv.
  apply Qmult_le_0_compat; [apply sq_dev_spec_nonneg|].
  apply Qinv_le_0_compat. unfold Qle; simpl.
  destruct w; simpl in *; lia.
Qed.

(** X14: in binary64, on every valid range, whatever its samples, its size
    and the weighting, what [var] returns is never below zero: it is a NaN
    or it is at least 0. *)
Theorem var_never_negative (first last : iterator float) (w : weight) :
  valid_range first last ->
  PrimFloat.ltb (var first last w) 0 = false /\
  (PrimFloat.is_nan (var first last w) = true \/
   PrimFloat.leb 0 (var first last w) = true).
Proof.
  intros Hv. pose proof (var_not_below first last w Hv) as Hs.
  split; [apply ltb_zero, Hs|].
  destruct (PrimFloat.is_nan (var first last w)) eqn:E; [now left|].
  right. apply not_nan_leb_zero; assumption.
Qed.

Lemma var_never_negative_witness :
  PrimFloat.ltb (var list_first list_last population) 0 = false /\
  (PrimFloat.is_nan (var list_first list_last population) = true \/
   PrimFloat.leb 0 (var list_first list_last population) = true).
Proof.
  apply (var_never_negative list_first list_last population).
  unfold valid_range; simpl. repeat split; lia.
Defined.

(** C6, as the code has it: for every input within the size precondition of
    [mean] and of [var] with the weighting [w], no error branch exists and
    the integer the sum is divided by, the distance or the distance less 1,
    is not 0; for finite samples (fewer than [2^53]) the double it is
    converted to is positive and [mean] and [var] return no NaN; where no
    operation of the run rounds or overflows, the result is finite and is
    the value of the two-pass formula. *)
Theorem well_sized_run (S : list float) (w : weight) (first last : iterator float) :
  well_sized (length S) w ->
  valid_range first last -> range first last = S ->
  distance first last <> 0%Z /\
  (if weight_eqb w sample then distance first last - 1 else distance first last)%Z
    <> 0%Z /\
  (forallb is_finite S = true -> (Z.of_nat (length S) < 2 ^ 53)%Z ->
   (exists m e,
      Prim2SF (cast (if weight_eqb w sample
                     then distance first last - 1
                     else distance first last)%Z) = S754_finite false m e) /\
   PrimFloat.is_nan (mean first last) = false /\
   PrimFloat.is_nan (var first last w) = false) /\
  (ok (mean (trace_iterator first) (trace_iterator last)) = true ->
   is_finite (mean first last) = true /\
   toQ (mean first last) == mean_spec (map toQ S)) /\
  (ok (var (trace_iterator first) (trace_iterator last) w) = true ->
   is_finite (var first last w) = true /\
   toQ (var first last w) == variance_spec (map toQ S) w).
Proof.
  intros Hw Hv Hd. pose proof (distance_length _ _ Hv) as Hn. rewrite Hd in Hn.
  split; [destruct w; simpl in Hw; lia|].
  split; [destruct w; simpl in *; lia|].
  split.
  { intros Hf Hlt. split; [|split].
    - apply cast_positive. destruct w; simpl in *; lia.
    - apply (mean_of_finite_run first last Hv); [now rewrite Hd|].
      destruct w; simpl in Hw; lia.
    - apply (var_is_number first last w Hv); [now rewrite Hd | now rewrite Hd | lia]. }
  split; intros Hok; rewrite <- Hd.
  - exact (mean_exact_run first last Hv Hok).
  - exact (var_exact_run first last Hv w Hok).
Qed.

Lemma well_sized_run_witness :
  distance buffer_first buffer_last <> 0%Z /\
  (distance buffer_first buffer_last - 1)%Z <> 0%Z /\
  ((exists m e,
      Prim2SF (cast (distance buffer_first buffer_last - 1)%Z) =
      S754_finite false m e) /\
   PrimFloat.is_nan (mean buffer_first buffer_last) = false /\
   PrimFloat.is_nan (var buffer_first buffer_last sample) = false) /\
  (is_finite (mean buffer_first buffer_last) = true /\
   toQ (mean buffer_first buffer_last) == mean_spec (map toQ one_to_five)) /\
  (is_finite (var buffer_first buffer_last sample) = true /\
   toQ (var buffer_first buffer_last sample) ==
     variance_spec (map toQ one_to_five) sample).
Proof.
  destruct (well_sized_run one_to_five sample buffer_first buffer_last)
    as (H1 & H2 & H3 & H4 & H5).
  - simpl; lia.
  - unfold valid_range; simpl. repeat split; lia.
  - reflexivity.
  - split; [exact H1|]. split; [exact H2|].
    split; [apply H3; [reflexivity | simpl; lia]|].
    split; [apply H4 | apply H5]; vm_compute; reflexivity.
Defined.

(** C10: for every sequence [S] within the size precondition of the
    weighting [w], what [var] returns is not below zero; it is a number at
    least 0 where the samples are finite (and fewer than [2^53]), and where
    no operation of the run rounds or overflows it is the non-negative
    value of the formula, a non-negative sum over a positive count; [std],
    which should return its square root, is no program. *)
Theorem var_nonneg_std_none (S : list float) (w : weight)
    (first last : iterator float) :
  well_sized (length S) w ->
  valid_range first last -> range first last = S ->
  PrimFloat.ltb (var first last w) 0 = false /\
  (forallb is_finite S = true -> (Z.of_nat (length S) < 2 ^ 53)%Z ->
   PrimFloat.is_nan (var first last w) = false /\
   PrimFloat.leb 0 (var first last w) = true) /\
  (ok (var (trace_iterator first) (trace_iterator last) w) = true ->
   0 <= sq_dev_spec (map toQ S) /\
   (0 < divisor_spec (length S) w)%Z /\
   0 <= toQ (var first last w)) /\
  std first last w = None.
Proof.
  intros Hw Hv Hd. pose proof (var_not_below first last w Hv) as Hs.
  split; [apply ltb_zero, Hs|].
  split.
  { intros Hf Hn. apply (var_is_number first last w Hv).
    - now rewrite Hd.
    - now rewrite Hd.
    - now rewrite (distance_length _ _ Hv), Hd. }
  split; [|reflexivity].
  intros Hok. destruct (var_exact_run first last Hv w Hok) as [Hfin Heq].
  repeat split.
  - apply sq_dev_spec_nonneg.
  - destruct w; simpl in *; lia.
  - rewrite Heq. apply variance_spec_nonneg. now rewrite length_map, Hd.
Qed.

Lemma var_nonneg_std_none_witness :
  PrimFloat.ltb (var buffer_first buffer_last sample) 0 = false /\
  (PrimFloat.is_nan (var buffer_first buffer_last sample) = false /\
   PrimFloat.leb 0 (var buffer_first buffer_last sample) = true) /\
  (0 <= sq_dev_spec (map toQ one_to_five) /\
   (0 < divisor_spec (length one_to_five) sample)%Z /\
   0 <= toQ (var buffer_first buffer_last sample)) /\
  std buffer_first buffer_last sample = None.
Proof.
  destruct (var_nonneg_std_none one_to_five sample buffer_first buffer_last)
    as (H1 & H2 & H3 & H4).
  - simpl; lia.
  - unfold valid_range; simpl. repeat split; lia.
  - reflexivity.
  - split; [exact H1|]. split; [apply H2; [reflexivity | simpl; lia]|].
    split; [apply H3; vm_compute; reflexivity | exact H4].
Defined.

(** X16: in binary64, on every valid range of finite samples, at least one
    and fewer than [2^53], [mean] returns no NaN: it is finite, or an
    infinity where the sum overflows. *)
Theorem mean_of_finite_samples (first last : iterator float) :
  valid_range first last ->
  forallb is_finite (range first last) = true ->
  (0 < distance first last < 2 ^ 53)%Z ->
  PrimFloat.is_nan (mean first last) = false.
Proof.
  intros Hv Hf Hn. apply mean_of_finite_run; assumption.
Qed.

Lemma mean_of_finite_samples_witness :
  PrimFloat.is_nan (mean (vbegin two_large) (vend two_large)) = false.
Proof.
  apply (mean_of_finite_samples (vbegin two_large) (vend two_large)).
  - unfold valid_range; simpl. repeat split; lia.
  - reflexivity.
  - unfold distance; simpl. lia.
Defined.

(** C7: for every single-element sequence [[x]], with [weight::sample] the
    divisor [N - 1] is 0 and what [var] returns is not finite, whatever
    [x], and is a NaN, 0 / 0, for a finite [x]; with [weight::population]
    [var] returns 0 for every finite [x]; [std], which should return 0 with
    [weight::population], is no program. *)
Theorem single_element (x : float) (first last : iterator float) :
  valid_range first last -> range first last = [x] ->
  (distance first last - 1 = 0)%Z /\
  cast (distance first last - 1) = 0%float /\
  is_finite (var first last sample) = false /\
  is_finite (var_vector [x] sample) = false /\
  (is_finite x = true ->
   var first last population = 0%float /\
   var_vector [x] population = 0%float /\
   PrimFloat.is_nan (var first last sample) = true /\
   PrimFloat.is_nan (var_vector [x] sample) = true) /\
  (std first last population = None /\ std_vector [x] population = None /\
   std first last sample = None /\ std_vector [x] sample = None).
Proof.
  intros Hv Hd.
  assert (Hn : distance first last = 1%Z)
    by (rewrite (distance_length _ _ Hv), Hd; reflexivity).
  assert (Hgen : forall f l : iterator float,
             distance f l = 1%Z -> is_finite (var f l sample) = false).
  { intros f l E. unfold var. cbn [weight_eqb]. rewrite E.
    change (cast (1 - 1)) with 0%float. apply div_zero_not_finite. }
  split; [rewrite Hn; reflexivity|].
  split; [rewrite Hn; reflexivity|].
  split; [apply Hgen, Hn|].
  split; [apply Hgen; reflexivity|].
  split; [|repeat split].
  intros Hx.
  destruct (var_single x first last Hv Hd Hx) as [Hp Hs].
  destruct (var_single x (vbegin [x]) (vend [x]) (valid_whole [x])
              (range_whole [x]) Hx) as [Hp' Hs'].
  repeat split; assumption.
Qed.

Lemma single_element_witness :
  let first := Iter buffer 3 true in
  let last := Iter buffer 4 true in
  (distance first last - 1 = 0)%Z /\
  cast (distance first last - 1) = 0%float /\
  is_finite (var first last sample) = false /\
  is_finite (var_vector [3%float] sample) = false /\
  (var first last population = 0%float /\
   var_vector [3%float] population = 0%float /\
   PrimFloat.is_nan (var first last sample) = true /\
   PrimFloat.is_nan (var_vector [3%float] sample) = true) /\
  (std first last population = None /\ std_vector [3%float] population = None /\
   std first last sample = None /\ std_vector [3%float] sample = None).
Proof.
  intros first last.
  destruct (single_element 3%float first last) as (H1 & H2 & H3 & H4 & H5 & H6).
  - unfold valid_range; simpl. repeat split; lia.
  - reflexivity.
  - repeat split; try assumption; try apply H6; apply H5; reflexivity.
Defined.

(** The single sample 7.5, run: 0 with [weight::population], and 0 / 0, a
    NaN, with [weight::sample]. *)
Lemma binary64_single_element :
  var_vector [7.5%float] population = 0%float /\
  PrimFloat.is_nan (var_vector [7.5%float] sample) = true /\
  std_vector [7.5%float] population = None.
Proof. vm_compute. repeat split. Qed.

End VarianceSign.

(** ** An infinite sample *)
Section InfiniteSample.
Import Binary64.

Lemma is_infinity_eq (x : float) :
  PrimFloat.is_infinity x = true -> exists s, x = inf s.
Proof.
  unfold PrimFloat.is_infinity. rewrite FloatAxioms.eqb_spec, abs_spec.
  change (Prim2SF infinity) with (S754_infinity false).
  destruct (Prim2SF x) as [s|s| |s m e] eqn:E; try discriminate.
  intros _. exists s. apply Prim2SF_inf_eq, E.
Qed.

Lemma Prim2SF_inf (s : bool) : Prim2SF (inf s) = S754_infinity s.
Proof. now destruct s. Qed.

Lemma add_inf_r (a : float) (s : bool) :
  PrimFloat.add a (inf s) = inf s \/ PrimFloat.add a (inf s) = nan.
Proof.
  pose proof (add_spec a (inf s)) as H. rewrite Prim2SF_inf in H.
  destruct (Prim2SF a) as [sa|sa| |sa ma ea];
    try (left; apply Prim2SF_inf_eq; exact H);
    try (right; apply Prim2SF_nan_eq; exact H).
  destruct sa, s; simpl in H;
    first [left; apply Prim2SF_inf_eq; exact H
          | right; apply Prim2SF_nan_eq; exact H].
Qed.

Lemma add_inf_l (s : bool) (x : float) :
  PrimFloat.add (inf s) x = inf s \/ PrimFloat.add (inf s) x = nan.
Proof.
  pose proof (add_spec (inf s) x) as H. rewrite Prim2SF_inf in H.
  destruct (Prim2SF x) as [sx|sx| |sx mx ex];
    try (left; apply Prim2SF_inf_eq; exact H);
    try (right; apply Prim2SF_nan_eq; exact H).
  destruct s, sx; simpl in H;
    first [left; apply Prim2SF_inf_eq; exact H
          | right; apply Prim2SF_nan_eq; exact H].
Qed.

Lemma div_inf_l (s : bool) (d : float) :
  sign_is false (Prim2SF d) = true ->
  PrimFloat.div (inf s) d = inf s \/ PrimFloat.div (inf s) d = nan.
Proof.
  intros Hd. pose proof (div_spec (inf s) d) as H. rewrite Prim2SF_inf in H.
  destruct (Prim2SF d) as [sd|sd| |sd md ed];
    try (destruct sd; [discriminate Hd|]);
    try (right; apply Prim2SF_nan_eq; exact H);
    left; apply Prim2SF_inf_eq; rewrite H; now destruct s.
Qed.

Lemma sub_inf_inf (s : bool) : PrimFloat.sub (inf s) (inf s) = nan.
Proof. now destruct s. Qed.

Lemma sum_from_inf (l : list float) (s : bool) :
  fold_left PrimFloat.add l (inf s) = inf s \/
  fold_left PrimFloat.add l (inf s) = nan.
Proof.
  induction l as [|x l IH]; [now left|]. simpl.
  destruct (add_inf_l s x) as [-> | ->]; [exact IH|].
  right. exact (sequential_from_nan (fun y => y) l).
Qed.

(** The sum of samples among which one is infinite is a NaN, or an
    infinity that is among the samples. *)
Lemma sum_with_inf (l : list float) (s0 : bool) (init : float) :
  In (inf s0) l ->
  fold_left PrimFloat.add l init = nan \/
  exists s, fold_left PrimFloat.add l init = inf s /\ In (inf s) l.
Proof.
  revert init. induction l as [|x l IH]; intros init Hin; [contradiction|].
  simpl. destruct Hin as [-> | Hin].
  - destruct (add_inf_r init s0) as [-> | ->].
    + destruct (sum_from_inf l s0) as [-> | ->].
      * right. exists s0. split; [reflexivity | now left].
      * now left.
    + left. exact (sequential_from_nan (fun y => y) l).
  - destruct (IH (PrimFloat.add init x) Hin) as [E | (s & E & Hs)].
    + now left.
    + right. exists s. split; [exact E | now right].
Qed.

(** X15: in binary64, one infinite sample in a valid range makes [var]
    return a NaN, with either weighting, while [mean] returns a NaN or
    that infinity: the deviation of the infinite sample from an infinite
    mean is no number. *)
Theorem infinite_sample (first last : iterator float) (w : weight) :
  valid_range first last ->
  existsb PrimFloat.is_infinity (range first last) = true ->
  (PrimFloat.is_nan (mean first last) = true \/
   PrimFloat.is_infinity (mean first last) = true) /\
  PrimFloat.is_nan (var first last w) = true.
Proof.
  intros Hv Hex. apply existsb_exists in Hex. destruct Hex as (x & Hin & Hx).
  apply is_infinity_eq in Hx. destruct Hx as [s0 ->].
  assert (Hd : sign_is false (Prim2SF (cast (distance first last))) = true).
  { apply cast_sign. rewrite (distance_length _ _ Hv). lia. }
  assert (Hm : mean first last = nan \/
               exists s, mean first last = inf s /\ In (inf s) (range first last)).
  { change (mean first last)
      with (PrimFloat.div (fold_left PrimFloat.add (range first last) (cast 0))
                          (cast (distance first last))).
    destruct (sum_with_inf _ s0 (cast 0) Hin) as [-> | (s & -> & Hs)].
    - left. apply div_nan_l.
    - destruct (div_inf_l s _ Hd) as [-> | ->]; [right | now left].
      exists s. now split. }
  assert (Hvar : var first last w = nan).
  { unfold var.
    rewrite (reduce_has_nan first last).
    - destruct (weight_eqb w sample); apply div_nan_l.
    - destruct Hm as [-> | (s & -> & Hs)].
      + exists (inf s0). split; [exact Hin | apply square_nan].
      + exists (inf s). split; [exact Hs|].
        simpl. rewrite sub_inf_inf. apply mul_nan_l. }
  split.
  - destruct Hm as [-> | (s & -> & _)]; [now left | right; now destruct s].
  - now rewrite Hvar.
Qed.

Lemma infinite_sample_witness :
  (PrimFloat.is_nan (mean (vbegin [1; infinity; 3]%float) (vend [1; infinity; 3]%float)) = true \/
   PrimFloat.is_infinity (mean (vbegin [1; infinity; 3]%float) (vend [1; infinity; 3]%float)) = true) /\
  PrimFloat.is_nan (var (vbegin [1; infinity; 3]%float) (vend [1; infinity; 3]%float) sample) = true.
Proof.
  apply (infinite_sample (vbegin [1; infinity; 3]%float) (vend [1; infinity; 3]%float) sample).
  - unfold valid_range; simpl. repeat split; lia.
  - reflexivity.
Defined.

End InfiniteSample.
